(** * android_view_InputChannel.cpp: the JNI glue of android.view.InputChannel

    A shallow embedding of core/jni/android_view_InputChannel.cpp and the
    properties of its native methods: disposal and its callback, the parcel
    codec, duplication, pair creation and the accessors.

    Native pointers cross the JNI boundary as [jlong] values; the embedding
    keeps the table of live [NativeInputChannel] objects by address and runs
    every native method in a state monad over it. A dereference of a null or
    dangling pointer has no defined result. *)

From stdpp Require Import gmap strings list fin_maps.

Local Open Scope Z_scope.

(** ** Data *)

Abbreviation jlong := Z (only parsing).
Abbreviation jobject := Z (only parsing).
Abbreviation status_t := Z (only parsing).
Abbreviation IBinder := Z (only parsing).

(** [sp<T>]: a strong pointer, [None] for [nullptr]. *)
Abbreviation sp T := (option T) (only parsing).

(** [jstring] and [jlongArray] results, [None] for [nullptr]. *)
Abbreviation jstring := (option string) (only parsing).
Abbreviation jlongArray := (option (list Z)) (only parsing).

(** The part of libinput's [InputChannel] this file reads: [getName()],
    [getConnectionToken()], and the descriptor that tells two channels of one
    name apart. *)
Record InputChannel := mkInputChannel {
  mName : string;
  mFd : Z;
  mToken : sp IBinder
}.

(** A [void*] field. The constructor of [NativeInputChannel] does not
    initialise [mDisposeData], hence [Indeterminate]. *)
Inductive VoidPtr :=
  | Indeterminate
  | Addr (p : Z).

Abbreviation nullptr := (Addr 0) (only parsing).

(** [class NativeInputChannel]; [mDisposeCallback] is a function pointer,
    [0] for [nullptr]. *)
Record NativeInputChannel := mkNativeInputChannel {
  mInputChannel : sp InputChannel;
  mDisposeCallback : Z;
  mDisposeData : VoidPtr
}.

Record JThrowable := mkThrowable {
  exClass : string;
  exMessage : string
}.

Inductive LogPriority := LOG_WARN | LOG_ERROR.

(** One call of a dispose callback, with the arguments it received. *)
Record HookCall := mkHookCall {
  hcCallback : Z;
  hcObj : jobject;
  hcChannel : sp InputChannel;
  hcData : VoidPtr
}.

(** What the native methods see and change. *)
Record State := mkState {
  heap : gmap Z NativeInputChannel;   (* live NativeInputChannel objects *)
  mPtrField : gmap Z Z;               (* InputChannel.mPtr of each Java object *)
  parcels : gmap Z (list Z);          (* native Parcel of each Java Parcel *)
  pendingException : option JThrowable;
  logcat : list (LogPriority * string);
  hookCalls : list HookCall
}.

Definition set_heap (f : gmap Z NativeInputChannel → gmap Z NativeInputChannel)
    (s : State) : State :=
  mkState (f (heap s)) (mPtrField s) (parcels s) (pendingException s)
          (logcat s) (hookCalls s).

Definition set_parcels (f : gmap Z (list Z) → gmap Z (list Z)) (s : State) : State :=
  mkState (heap s) (mPtrField s) (f (parcels s)) (pendingException s)
          (logcat s) (hookCalls s).

Definition set_pendingException (e : option JThrowable) (s : State) : State :=
  mkState (heap s) (mPtrField s) (parcels s) e (logcat s) (hookCalls s).

Definition add_log (p : LogPriority) (msg : string) (s : State) : State :=
  mkState (heap s) (mPtrField s) (parcels s) (pendingException s)
          (logcat s ++ [(p, msg)]) (hookCalls s).

Definition add_hookCall (c : HookCall) (s : State) : State :=
  mkState (heap s) (mPtrField s) (parcels s) (pendingException s)
          (logcat s) (hookCalls s ++ [c]).

(** ** The collaborators outside this file

    libinput's [InputChannel], libc, the JNI runtime and the registered
    callbacks are not part of this translation unit. Each is a member of
    [Platform]; the theorems hold for every platform, or say which contract
    they need. *)
Class Platform := {
  (** [strerror(3)]. *)
  strerror : Z → string;
  (** [InputChannel::openInputChannelPair(name, server, client)]: the status
      and the two out-parameters. *)
  InputChannel_openInputChannelPair :
    string → status_t * sp InputChannel * sp InputChannel;
  (** [InputChannel::dup()]. *)
  InputChannel_dup : InputChannel → sp InputChannel;
  (** [InputChannel::write(Parcel&)]: the words it appends. *)
  InputChannel_write : InputChannel → list Z;
  (** [InputChannel::read(const Parcel&)]: the channel decoded from the
      unread words, and the words left. *)
  InputChannel_read : list Z → sp InputChannel * list Z;
  (** [javaObjectForIBinder(env, binder)]. *)
  javaObjectForIBinder : sp IBinder → jobject;
  (** Whether [env->NewLongArray(2)] can allocate the array. *)
  NewLongArray_ok : State → bool;
  (** The body of a dispose callback:
      [callback(env, obj, inputChannel, data)]. *)
  runDisposeCallback : Z → jobject → sp InputChannel → VoidPtr → State → State
}.

(** ** The monad of native code

    [None] is undefined behaviour: a dereference of [nullptr] or of a pointer
    to no live object. *)
Definition M (A : Type) : Type := State → option (A * State).

Global Instance M_ret : MRet M := λ A a s, Some (a, s).
Global Instance M_bind : MBind M := λ A B f m s,
  match m s with
  | Some (a, s') => f a s'
  | None => None
  end.

Definition undefined {A} : M A := λ _, None.
Definition gets {A} (f : State → A) : M A := λ s, Some (f s, s).
Definition modify (f : State → State) : M unit := λ s, Some (tt, f s).

(** [*p] for a [NativeInputChannel* p]. *)
Definition deref (p : Z) : M NativeInputChannel := λ s,
  match heap s !! p with
  | Some n => Some (n, s)
  | None => None
  end.

(** [p->] for an [sp<T> p]. *)
Definition deref_sp {A} (p : sp A) : M A :=
  match p with
  | Some a => mret a
  | None => undefined
  end.

(** A fresh non-null address for [new]. *)
Definition newAddress (h : gmap Z NativeInputChannel) : Z :=
  fresh ({[0]} ∪ dom h).

(** [new NativeInputChannel(inputChannel)]: the constructor sets the channel
    and a null callback, and leaves [mDisposeData] alone. *)
Definition new_NativeInputChannel (inputChannel : sp InputChannel) : M Z := λ s,
  let p := newAddress (heap s) in
  Some (p, set_heap (insert p (mkNativeInputChannel inputChannel 0 Indeterminate)) s).

(** [delete p]. *)
Definition delete_NativeInputChannel (p : Z) : M unit :=
  _ ← deref p; modify (set_heap (delete p)).

Definition RuntimeException (msg : string) : JThrowable :=
  mkThrowable "java/lang/RuntimeException" msg.

Definition OutOfMemoryError : JThrowable :=
  mkThrowable "java/lang/OutOfMemoryError" String.EmptyString.

Definition jniThrowRuntimeException (msg : string) : M unit :=
  modify (set_pendingException (Some (RuntimeException msg))).

Definition ExceptionCheck : M bool :=
  gets (λ s, bool_decide (is_Some (pendingException s))).

Definition ALOGW (msg : string) : M unit := modify (add_log LOG_WARN msg).
Definition ALOGE (msg : string) : M unit := modify (add_log LOG_ERROR msg).

(** ** Parcel

    libbinder's [Parcel] is not part of this file. A parcel is kept as the
    sequence of its unread 32-bit words, and the native [Parcel*] of a Java
    Parcel is identified with the Java object. *)

(** [parcelForJavaObject(env, parcelObj)], [None] for [nullptr]. *)
Definition parcelForJavaObject (parcelObj : jobject) : M (sp Z) :=
  gets (λ s, if parcels s !! parcelObj is Some _ then Some parcelObj else None).

(** [parcel->...]: run [f] on the words of [*parcel]. *)
Definition with_parcel {A} (parcel : Z) (f : list Z → A * list Z) : M A := λ s,
  match parcels s !! parcel with
  | Some ws => let '(a, ws') := f ws in Some (a, set_parcels (insert parcel ws') s)
  | None => None
  end.

(** Modelled from the spec: [Parcel::writeInt32] is missing from the sources;
    the container has "opaque read/write primitives for integers", and a
    write adds one word at the end. *)
Definition Parcel_writeInt32 (parcel : Z) (v : Z) : M unit :=
  with_parcel parcel (λ ws, (tt, ws ++ [v])).

(** Modelled from the spec: [Parcel::readInt32] is missing from the sources;
    a read takes the next unread word, and gives [0] when none is left. *)
Definition Parcel_readInt32 (parcel : Z) : M Z :=
  with_parcel parcel (λ ws, match ws with v :: rest => (v, rest) | [] => (0, []) end).

Section Native.
Context `{P : Platform}.

(** ** class NativeInputChannel *)

Definition NativeInputChannel_getInputChannel (this : Z) : M (sp InputChannel) :=
  n ← deref this; mret (mInputChannel n).

Definition NativeInputChannel_setDisposeCallback (this : Z) (callback : Z)
    (data : VoidPtr) : M unit :=
  n ← deref this;
  modify (set_heap (insert this (mkNativeInputChannel (mInputChannel n) callback data))).

Definition call_mDisposeCallback (callback : Z) (obj : jobject)
    (inputChannel : sp InputChannel) (data : VoidPtr) : M unit :=
  modify (λ s, runDisposeCallback callback obj inputChannel data
                 (add_hookCall (mkHookCall callback obj inputChannel data) s)).

Definition NativeInputChannel_invokeAndRemoveDisposeCallback (this : Z)
    (obj : jobject) : M unit :=
  n ← deref this;
  if bool_decide (mDisposeCallback n ≠ 0) then
    _ ← call_mDisposeCallback (mDisposeCallback n) obj (mInputChannel n) (mDisposeData n);
    (* mDisposeCallback = nullptr; mDisposeData = nullptr; *)
    n' ← deref this;
    modify (set_heap (insert this (mkNativeInputChannel (mInputChannel n') 0 nullptr)))
  else mret tt.

(** ** The JNI entry points *)

(** [env->GetLongField(inputChannelObj, gInputChannelClassInfo.mPtr)]. *)
Definition android_view_InputChannel_getNativeInputChannel
    (inputChannelObj : jobject) : M Z := λ s,
  match mPtrField s !! inputChannelObj with
  | Some longPtr => Some (longPtr, s)
  | None => None
  end.

Definition android_view_InputChannel_getInputChannel
    (inputChannelObj : jobject) : M (sp InputChannel) :=
  nativeInputChannel ← android_view_InputChannel_getNativeInputChannel inputChannelObj;
  if bool_decide (nativeInputChannel ≠ 0)
  then NativeInputChannel_getInputChannel nativeInputChannel
  else mret None.

Definition android_view_InputChannel_setDisposeCallback
    (inputChannelObj : jobject) (callback : Z) (data : VoidPtr) : M unit :=
  nativeInputChannel ← android_view_InputChannel_getNativeInputChannel inputChannelObj;
  if bool_decide (nativeInputChannel = 0) then
    ALOGW "Cannot set dispose callback because input channel object has not been initialized."
  else NativeInputChannel_setDisposeCallback nativeInputChannel callback data.

Definition android_view_InputChannel_createInputChannel
    (inputChannel : sp InputChannel) : M jlong :=
  new_NativeInputChannel inputChannel.

(** [ScopedUtfChars nameChars(env, nameObj); std::string name = nameChars.c_str()]:
    for a null [nameObj], [c_str()] is null and the string has no defined
    value. *)
Definition ScopedUtfChars_c_str (nameObj : jstring) : M string :=
  deref_sp nameObj.

(** [env->NewLongArray(2)]: [false] for a null result, which the runtime
    accompanies with an [OutOfMemoryError]. *)
Definition NewLongArray : M bool := λ s,
  if NewLongArray_ok s then Some (true, s)
  else Some (false, set_pendingException (Some OutOfMemoryError) s).

Definition android_view_InputChannel_nativeOpenInputChannelPair
    (nameObj : jstring) : M jlongArray :=
  name ← ScopedUtfChars_c_str nameObj;
  let '(result, serverChannel, clientChannel) :=
    InputChannel_openInputChannelPair name in
  if bool_decide (result ≠ 0) then
    let message := "Could not open input channel pair : " +:+ strerror (- result) in
    _ ← jniThrowRuntimeException message;
    mret None
  else
    channelPair ← NewLongArray;
    if negb channelPair then mret None
    else
      out0 ← android_view_InputChannel_createInputChannel serverChannel;
      exc0 ← ExceptionCheck;
      if (exc0 : bool) then mret None
      else
        out1 ← android_view_InputChannel_createInputChannel clientChannel;
        exc1 ← ExceptionCheck;
        if (exc1 : bool) then mret None
        else mret (Some [out0; out1]).

(** The finalizer, whose address [android_view_InputChannel_getNativeFinalizer]
    returns. *)
Definition InputChannel_nativeDestroy (rawInputChannel : Z) : M unit :=
  if bool_decide (rawInputChannel ≠ 0)
  then delete_NativeInputChannel rawInputChannel
  else mret tt.

Definition android_view_InputChannel_nativeDispose (obj : jobject)
    (channel : jlong) : M unit :=
  if bool_decide (channel ≠ 0)
  then NativeInputChannel_invokeAndRemoveDisposeCallback channel obj
  else mret tt.

Definition android_view_InputChannel_nativeReadFromParcel
    (parcelObj : jobject) : M jlong :=
  parcel ← parcelForJavaObject parcelObj;
  match parcel with
  | Some parcel =>
      isInitialized ← Parcel_readInt32 parcel;
      if bool_decide (isInitialized ≠ 0) then
        inputChannel ← with_parcel parcel InputChannel_read;
        new_NativeInputChannel inputChannel
      else mret 0
  | None => mret 0
  end.

Definition android_view_InputChannel_nativeWriteToParcel
    (parcelObj : jobject) (channel : jlong) : M unit :=
  parcel ← parcelForJavaObject parcelObj;
  match parcel with
  | None => ALOGE "Could not obtain parcel for Java object"
  | Some parcel =>
      if bool_decide (channel = 0) then
        Parcel_writeInt32 parcel 0 (* not initialized *)
      else
        _ ← Parcel_writeInt32 parcel 1; (* initialized *)
        inputChannel ← NativeInputChannel_getInputChannel channel;
        c ← deref_sp inputChannel;
        with_parcel parcel (λ ws, (tt, ws ++ InputChannel_write c))
  end.

Definition android_view_InputChannel_nativeGetName (channel : jlong) : M jstring :=
  if bool_decide (channel = 0) then mret None
  else
    inputChannel ← NativeInputChannel_getInputChannel channel;
    c ← deref_sp inputChannel;
    (* env->NewStringUTF(...) *)
    mret (Some (mName c)).

Definition android_view_InputChannel_nativeDup (channel : jlong) : M jlong :=
  if bool_decide (channel = 0) then
    _ ← jniThrowRuntimeException "InputChannel has no valid NativeInputChannel";
    mret 0
  else
    inputChannel ← NativeInputChannel_getInputChannel channel;
    match inputChannel with
    | None =>
        _ ← jniThrowRuntimeException "NativeInputChannel has no corresponding InputChannel";
        mret 0
    | Some c =>
        let dupInputChannel := InputChannel_dup c in
        _ ← (if dupInputChannel is Some _ then mret tt
             else
               let message := "Could not duplicate input channel " +:+ mName c in
               jniThrowRuntimeException message);
        new_NativeInputChannel dupInputChannel
    end.

Definition android_view_InputChannel_nativeGetToken (channel : jlong) : M jobject :=
  if bool_decide (channel ≠ 0) then
    inputChannel ← NativeInputChannel_getInputChannel channel;
    c ← deref_sp inputChannel;
    mret (javaObjectForIBinder (mToken c))
  else mret 0.

End Native.

(** ** Contracts of the collaborators *)

(** What disposal asks of a dispose callback, for the handle at [this]: the
    callback returns with the object still live and holding the channel it
    held (the field is private and has no setter), and it disposes nothing
    itself. It may do anything else, re-registering a callback included. *)
Definition callback_keeps `{Platform} (this : Z) : Prop :=
  ∀ cb obj ch d s n,
    heap s !! this = Some n →
    hookCalls (runDisposeCallback cb obj ch d s) = hookCalls s
    ∧ ∃ n', heap (runDisposeCallback cb obj ch d s) !! this = Some n'
            ∧ mInputChannel n' = mInputChannel n.

(** [nativeDispose] called [k] times in a row on one reference. *)
Fixpoint dispose_times `{Platform} (k : nat) (obj : jobject) (channel : jlong)
    : M unit :=
  match k with
  | O => mret tt
  | S k' =>
      _ ← android_view_InputChannel_nativeDispose obj channel;
      dispose_times k' obj channel
  end.

(** The codec of the channel inverts its own encoding of [c]: reading back
    what [write] appended gives a channel of the same name and token. *)
Definition codec_inverts `{Platform} (c : InputChannel) : Prop :=
  ∃ c' rest, InputChannel_read (InputChannel_write c) = (Some c', rest)
             ∧ mName c' = mName c ∧ mToken c' = mToken c.

(** The invariant of the boundary: a reference handed out is 0, or the
    address of a live handle whose channel is non-null. *)
Definition boundary_ok (r : jlong) (s : State) : Prop :=
  r = 0 ∨ ∃ n c, heap s !! r = Some n ∧ mInputChannel n = Some c.

(** Modelled from the spec: [InputChannel::openInputChannelPair] is missing
    from the sources; on success it gives "two ... freshly connected" ends,
    and "both ends share [name]". *)
Definition transport_contract `{Platform} (name : string) : Prop :=
  ∀ server client,
    InputChannel_openInputChannelPair name = (0, server, client) →
    ∃ c1 c2, server = Some c1 ∧ client = Some c2
             ∧ mName c1 = name ∧ mName c2 = name.

(** The two outcomes C7 allows for [nativeOpenInputChannelPair]: an array of
    two live handles with non-null channels of one name, or no array and a
    pending RuntimeException that carries the system's error text. *)
Definition pair_or_transport_error `{Platform} (name : string) (s : State) : Prop :=
  (∃ a b s' na nb ca cb,
      android_view_InputChannel_nativeOpenInputChannelPair (Some name) s
      = Some (Some [a; b], s')
      ∧ heap s' !! a = Some na ∧ mInputChannel na = Some ca
      ∧ heap s' !! b = Some nb ∧ mInputChannel nb = Some cb
      ∧ mName ca = mName cb)
  ∨ (∃ e s',
      android_view_InputChannel_nativeOpenInputChannelPair (Some name) s
      = Some (None, s')
      ∧ pendingException s'
        = Some (RuntimeException ("Could not open input channel pair : " +:+ strerror e))).


(** ** A reference platform

    One concrete choice of the collaborators, on which the theorems are run:
    the channel codec writes the name length-prefixed, then the descriptor,
    then the token; a duplicate and a decoded channel carry a descriptor of
    their own. *)

Definition ref_write (c : InputChannel) : list Z :=
  Z.of_nat (String.length (mName c))
  :: ((λ a, Z.of_N (Ascii.N_of_ascii a)) <$> String.list_ascii_of_string (mName c))
  ++ [mFd c]
  ++ match mToken c with Some t => [1; t] | None => [0] end.

Definition ref_read (ws : list Z) : sp InputChannel * list Z :=
  match ws with
  | [] => (None, [])
  | len :: ws1 =>
      let k := Z.to_nat len in
      let name :=
        String.string_of_list_ascii
          ((λ w, Ascii.ascii_of_N (Z.to_N w)) <$> take k ws1) in
      match drop k ws1 with
      | fd :: 0 :: rest => (Some (mkInputChannel name (fd + 100) None), rest)
      | fd :: _ :: t :: rest => (Some (mkInputChannel name (fd + 100) (Some t)), rest)
      | rest => (None, rest)
      end
  end.

(** The reference callback logs its call and registers itself again on the
    handle its data points to. *)
Definition ref_callback (cb : Z) (obj : jobject) (ch : sp InputChannel)
    (d : VoidPtr) (s : State) : State :=
  let s := add_log LOG_WARN "dispose callback" s in
  match d with
  | Addr p =>
      match NativeInputChannel_setDisposeCallback p cb d s with
      | Some (_, s') => s'
      | None => s
      end
  | Indeterminate => s
  end.

(** [openStatus] is the status of [openInputChannelPair]; [dupOk] and
    [arrayOk] say whether [dup()] and [NewLongArray] succeed. *)
Definition refPlatform (openStatus : Z) (dupOk arrayOk : bool) : Platform := {|
  strerror e := if bool_decide (e = 24) then "Too many open files" else "Unknown error";
  InputChannel_openInputChannelPair name :=
    if bool_decide (openStatus = 0)
    then (0, Some (mkInputChannel name 10 (Some 7)),
             Some (mkInputChannel name 11 (Some 7)))
    else (openStatus, None, None);
  InputChannel_dup c :=
    if dupOk then Some (mkInputChannel (mName c) (mFd c + 100) (mToken c)) else None;
  InputChannel_write := ref_write;
  InputChannel_read := ref_read;
  javaObjectForIBinder t := default 0 t;
  NewLongArray_ok _ := arrayOk;
  runDisposeCallback := ref_callback
|}.

Definition chanX : InputChannel := mkInputChannel "x" 10 (Some 7).

(** One live handle at address 1, wrapping [chanX], with callback 5
    registered and the handle itself as its data; Java object 20 owns it,
    Java object 21 is not initialised; Java Parcel 30 is empty. *)
Definition s0 : State := {|
  heap := {[ 1 := mkNativeInputChannel (Some chanX) 5 (Addr 1) ]};
  mPtrField := {[ 20 := 1; 21 := 0 ]};
  parcels := {[ 30 := [] ]};
  pendingException := None;
  logcat := [];
  hookCalls := []
|}.

(** ** Sequences of calls

    The entry points as the runtime may call them one after the other, their
    results dropped. *)
Inductive Call :=
  | CallOpenInputChannelPair (nameObj : option string)
  | CallDestroy (rawInputChannel : Z)
  | CallDispose (obj : jobject) (channel : jlong)
  | CallReadFromParcel (parcelObj : jobject)
  | CallWriteToParcel (parcelObj : jobject) (channel : jlong)
  | CallGetName (channel : jlong)
  | CallDup (channel : jlong)
  | CallGetToken (channel : jlong)
  | CallSetDisposeCallback (inputChannelObj : jobject) (callback : Z) (data : VoidPtr)
  | CallGetInputChannel (inputChannelObj : jobject).

Definition run_call `{Platform} (c : Call) : M unit :=
  match c with
  | CallOpenInputChannelPair nameObj =>
      _ ← android_view_InputChannel_nativeOpenInputChannelPair nameObj; mret tt
  | CallDestroy raw => InputChannel_nativeDestroy raw
  | CallDispose obj channel => android_view_InputChannel_nativeDispose obj channel
  | CallReadFromParcel parcelObj =>
      _ ← android_view_InputChannel_nativeReadFromParcel parcelObj; mret tt
  | CallWriteToParcel parcelObj channel =>
      android_view_InputChannel_nativeWriteToParcel parcelObj channel
  | CallGetName channel =>
      _ ← android_view_InputChannel_nativeGetName channel; mret tt
  | CallDup channel =>
      _ ← android_view_InputChannel_nativeDup channel; mret tt
  | CallGetToken channel =>
      _ ← android_view_InputChannel_nativeGetToken channel; mret tt
  | CallSetDisposeCallback obj callback data =>
      android_view_InputChannel_setDisposeCallback obj callback data
  | CallGetInputChannel obj =>
      _ ← android_view_InputChannel_getInputChannel obj; mret tt
  end.

Fixpoint run_calls `{Platform} (cs : list Call) : M unit :=
  match cs with
  | [] => mret tt
  | c :: cs' => _ ← run_call c; run_calls cs'
  end.

(** [c] is the finalizer run on [q]. *)
Definition finalizes (q : Z) (c : Call) : Prop :=
  match c with
  | CallDestroy raw => raw = q
  | _ => False
  end.

(** The handle at [q] is live in [s] and holds the channel [ch]. *)
Definition holds_channel (q : Z) (ch : option InputChannel) (s : State) : Prop :=
  ∃ n, heap s !! q = Some n ∧ mInputChannel n = ch.

(** Whenever [m] returns, the handle at [q] is still live and holds the
    channel it held. *)
Definition preserves {A} (q : Z) (m : M A) : Prop :=
  ∀ ch s a s', holds_channel q ch s → m s = Some (a, s') → holds_channel q ch s'.

(** ** Running native code *)

Lemma bind_Some {A B} (m : M A) (f : A → M B) s a s' :
  m s = Some (a, s') → (m ≫= f) s = f a s'.
Proof. intros H. unfold mbind, M_bind. by rewrite H. Qed.

Lemma deref_Some p s n : heap s !! p = Some n → deref p s = Some (n, s).
Proof. intros H. unfold deref. by rewrite H. Qed.

Lemma newAddress_nonzero h : newAddress h ≠ 0.
Proof.
  unfold newAddress. intros E.
  apply (is_fresh ({[0]} ∪ dom h)). rewrite E. set_solver.
Qed.

Lemma newAddress_fresh h : h !! newAddress h = None.
Proof.
  apply not_elem_of_dom. unfold newAddress. intros E.
  apply (is_fresh ({[0]} ∪ dom h)). set_solver.
Qed.

Lemma new_NativeInputChannel_spec ch s :
  ∃ p, new_NativeInputChannel ch s
         = Some (p, set_heap (insert p (mkNativeInputChannel ch 0 Indeterminate)) s)
       ∧ p ≠ 0 ∧ heap s !! p = None.
Proof.
  exists (newAddress (heap s)). split; [done|].
  split; [apply newAddress_nonzero | apply newAddress_fresh].
Qed.

Section Facts.
Context `{P : Platform}.

(** C8: on the null reference, nativeGetName returns null and nativeGetToken
    returns null, both leaving the state (so the pending exception) as it
    was, while nativeDup throws a RuntimeException and returns 0. *)
Theorem null_reference_access (s : State) :
  android_view_InputChannel_nativeGetName 0 s = Some (None, s)
  ∧ android_view_InputChannel_nativeGetToken 0 s = Some (0, s)
  ∧ android_view_InputChannel_nativeDup 0 s
    = Some (0, set_pendingException
                 (Some (RuntimeException
                          "InputChannel has no valid NativeInputChannel")) s).
Proof.
  split; [|split].
  - unfold android_view_InputChannel_nativeGetName.
    by rewrite bool_decide_true.
  - unfold android_view_InputChannel_nativeGetToken.
    by rewrite bool_decide_false by (by intros []).
  - unfold android_view_InputChannel_nativeDup.
    rewrite bool_decide_true by done.
    by erewrite bind_Some.
Qed.

(** *** Disposal *)

Lemma invokeAndRemove_no_callback this obj s n :
  heap s !! this = Some n → mDisposeCallback n = 0 →
  NativeInputChannel_invokeAndRemoveDisposeCallback this obj s = Some (tt, s).
Proof.
  intros Hn Hcb. unfold NativeInputChannel_invokeAndRemoveDisposeCallback.
  rewrite (bind_Some _ _ _ _ _ (deref_Some _ _ _ Hn)).
  rewrite bool_decide_false; [done | by intros []].
Qed.

(** With a callback set: the callback runs on the state in which the object
    is untouched, and the two fields are nulled in the state it returns. *)
Lemma invokeAndRemove_callback this obj s n :
  heap s !! this = Some n → mDisposeCallback n ≠ 0 →
  callback_keeps this →
  let call := mkHookCall (mDisposeCallback n) obj (mInputChannel n) (mDisposeData n) in
  let s1 := runDisposeCallback (mDisposeCallback n) obj (mInputChannel n)
              (mDisposeData n) (add_hookCall call s) in
  NativeInputChannel_invokeAndRemoveDisposeCallback this obj s
  = Some (tt, set_heap
                (insert this (mkNativeInputChannel (mInputChannel n) 0 nullptr)) s1)
  ∧ hookCalls s1 = hookCalls s ++ [call].
Proof.
  intros Hn Hcb Hk call s1.
  destruct (Hk (mDisposeCallback n) obj (mInputChannel n) (mDisposeData n)
              (add_hookCall call s) n Hn) as (Hcalls & n' & Hn' & Hch).
  fold s1 in Hcalls, Hn'. split; [|done].
  unfold NativeInputChannel_invokeAndRemoveDisposeCallback.
  rewrite (bind_Some _ _ _ _ _ (deref_Some _ _ _ Hn)).
  rewrite bool_decide_true by done.
  unfold call_mDisposeCallback.
  erewrite bind_Some; [|reflexivity].
  fold call. fold s1.
  rewrite (bind_Some _ _ _ _ _ (deref_Some _ _ _ Hn')).
  by rewrite Hch.
Qed.

(** One disposal, whatever is registered: the object stays live, keeps its
    channel and ends with a null callback. *)
Lemma nativeDispose_live this obj s n :
  this ≠ 0 → heap s !! this = Some n → callback_keeps this →
  ∃ s1 n1, android_view_InputChannel_nativeDispose obj this s = Some (tt, s1)
           ∧ heap s1 !! this = Some n1
           ∧ mInputChannel n1 = mInputChannel n.
Proof.
  intros H0 Hn Hk. unfold android_view_InputChannel_nativeDispose.
  rewrite bool_decide_true by done.
  destruct (decide (mDisposeCallback n = 0)) as [Hcb|Hcb].
  - exists s, n. by rewrite (invokeAndRemove_no_callback _ _ _ _ Hn Hcb).
  - destruct (invokeAndRemove_callback this obj s n Hn Hcb Hk) as [Hrun _].
    eexists _, _. split; [exact Hrun|]. split; [apply lookup_insert_eq|done].
Qed.



Lemma nativeGetName_live channel s n c :
  channel ≠ 0 → heap s !! channel = Some n → mInputChannel n = Some c →
  android_view_InputChannel_nativeGetName channel s = Some (Some (mName c), s).
Proof.
  intros H0 Hn Hc. unfold android_view_InputChannel_nativeGetName.
  rewrite bool_decide_false by done.
  unfold NativeInputChannel_getInputChannel.
  rewrite (bind_Some _ _ s (Some c) s); [done|].
  rewrite (bind_Some _ _ _ _ _ (deref_Some _ _ _ Hn)). by rewrite Hc.
Qed.

Lemma nativeGetToken_live channel s n c :
  channel ≠ 0 → heap s !! channel = Some n → mInputChannel n = Some c →
  android_view_InputChannel_nativeGetToken channel s
  = Some (javaObjectForIBinder (mToken c), s).
Proof.
  intros H0 Hn Hc. unfold android_view_InputChannel_nativeGetToken.
  rewrite bool_decide_true by done.
  unfold NativeInputChannel_getInputChannel.
  rewrite (bind_Some _ _ s (Some c) s); [done|].
  rewrite (bind_Some _ _ _ _ _ (deref_Some _ _ _ Hn)). by rewrite Hc.
Qed.

Lemma nativeDestroy_live channel s n :
  channel ≠ 0 → heap s !! channel = Some n →
  InputChannel_nativeDestroy channel s = Some (tt, set_heap (delete channel) s).
Proof.
  intros H0 Hn. unfold InputChannel_nativeDestroy, delete_NativeInputChannel.
  rewrite bool_decide_true by done.
  by rewrite (bind_Some _ _ _ _ _ (deref_Some _ _ _ Hn)).
Qed.

(** One disposal keeps the handle live with the channel it had. *)
Lemma nativeDispose_keeps_channel channel obj s n c :
  channel ≠ 0 → heap s !! channel = Some n → mInputChannel n = Some c →
  callback_keeps channel →
  ∃ s1 n1, android_view_InputChannel_nativeDispose obj channel s = Some (tt, s1)
           ∧ heap s1 !! channel = Some n1 ∧ mInputChannel n1 = Some c.
Proof.
  intros H0 Hn Hc Hk.
  destruct (nativeDispose_live channel obj s n H0 Hn Hk)
    as (s1 & n1 & Hrun & Hn1 & Hch).
  exists s1, n1. by rewrite Hch.
Qed.

(** C10: any number of disposals of a live handle leave it live with the same
    non-null channel, so nativeGetName and nativeGetToken still return that
    channel's name and token; InputChannel_nativeDestroy, the finalizer, is
    what frees the object. *)
Theorem dispose_keeps_handle (channel obj : Z) (k : nat) (s : State)
    (n : NativeInputChannel) (c : InputChannel) :
  channel ≠ 0 →
  heap s !! channel = Some n →
  mInputChannel n = Some c →
  callback_keeps channel →
  ∃ s' n',
    dispose_times k obj channel s = Some (tt, s')
    ∧ heap s' !! channel = Some n'
    ∧ mInputChannel n' = Some c
    ∧ android_view_InputChannel_nativeGetName channel s' = Some (Some (mName c), s')
    ∧ android_view_InputChannel_nativeGetToken channel s'
      = Some (javaObjectForIBinder (mToken c), s')
    ∧ ∃ s'', InputChannel_nativeDestroy channel s' = Some (tt, s'')
             ∧ heap s'' !! channel = None.
Proof.
  intros H0 Hn Hc Hk. revert s n Hn Hc.
  induction k as [|k IH]; intros s n Hn Hc.
  - exists s, n. split; [done|]. split; [done|]. split; [done|].
    split; [by eapply nativeGetName_live|].
    split; [by eapply nativeGetToken_live|].
    eexists. split; [by eapply nativeDestroy_live|]. apply lookup_delete_eq.
  - destruct (nativeDispose_keeps_channel channel obj s n c H0 Hn Hc Hk)
      as (s1 & n1 & Hrun & Hn1 & Hc1).
    destruct (IH s1 n1 Hn1 Hc1) as (s' & n' & Hrest).
    exists s', n'. cbn [dispose_times].
    by rewrite (bind_Some _ _ _ _ _ Hrun).
Qed.

(** *** Registering a callback *)





(** *** The parcel codec *)

Lemma set_parcels_insert_twice k ws1 ws2 s :
  set_parcels (insert k ws2) (set_parcels (insert k ws1) s)
  = set_parcels (insert k ws2) s.
Proof.
  destruct s; unfold set_parcels; cbn. f_equal. apply insert_insert_eq.
Qed.

Lemma set_parcels_insert_id k ws s :
  parcels s !! k = Some ws → set_parcels (insert k ws) s = s.
Proof.
  intros H. destruct s; unfold set_parcels; cbn in *. f_equal. by apply insert_id.
Qed.

Lemma parcelForJavaObject_Some parcelObj s ws :
  parcels s !! parcelObj = Some ws →
  parcelForJavaObject parcelObj s = Some (Some parcelObj, s).
Proof. intros H. unfold parcelForJavaObject, gets. by rewrite H. Qed.

Lemma with_parcel_Some {A} parcel (f : list Z → A * list Z) s ws :
  parcels s !! parcel = Some ws →
  with_parcel parcel f s
  = Some ((f ws).1, set_parcels (insert parcel (f ws).2) s).
Proof. intros H. unfold with_parcel. rewrite H. by destruct (f ws). Qed.

Lemma parcels_set_parcels_insert k ws s :
  parcels (set_parcels (insert k ws) s) !! k = Some ws.
Proof. apply lookup_insert_eq. Qed.

Lemma nativeWriteToParcel_absent parcelObj ws s :
  parcels s !! parcelObj = Some ws →
  android_view_InputChannel_nativeWriteToParcel parcelObj 0 s
  = Some (tt, set_parcels (insert parcelObj (ws ++ [0])) s).
Proof.
  intros Hp. unfold android_view_InputChannel_nativeWriteToParcel.
  rewrite (bind_Some _ _ _ _ _ (parcelForJavaObject_Some _ _ _ Hp)).
  rewrite bool_decide_true by done.
  unfold Parcel_writeInt32. by rewrite (with_parcel_Some _ _ _ _ Hp).
Qed.

Lemma nativeWriteToParcel_present parcelObj ws channel s n c :
  parcels s !! parcelObj = Some ws →
  channel ≠ 0 → heap s !! channel = Some n → mInputChannel n = Some c →
  android_view_InputChannel_nativeWriteToParcel parcelObj channel s
  = Some (tt, set_parcels (insert parcelObj (ws ++ 1 :: InputChannel_write c)) s).
Proof.
  intros Hp H0 Hn Hc. unfold android_view_InputChannel_nativeWriteToParcel.
  rewrite (bind_Some _ _ _ _ _ (parcelForJavaObject_Some _ _ _ Hp)).
  rewrite bool_decide_false by done.
  unfold Parcel_writeInt32.
  rewrite (bind_Some _ _ _ _ _ (with_parcel_Some _ _ _ _ Hp)). cbn [fst snd].
  unfold NativeInputChannel_getInputChannel.
  rewrite (bind_Some _ _ _ (Some c) (set_parcels (insert parcelObj (ws ++ [1])) s)).
  2:{ rewrite (bind_Some _ _ _ n (set_parcels (insert parcelObj (ws ++ [1])) s));
        [by rewrite Hc | by apply deref_Some]. }
  rewrite (bind_Some _ _ _ c (set_parcels (insert parcelObj (ws ++ [1])) s)) by done.
  rewrite (with_parcel_Some _ _ _ _ (parcels_set_parcels_insert _ _ _)). cbn [fst snd].
  rewrite set_parcels_insert_twice. by rewrite <- app_assoc.
Qed.

Lemma nativeReadFromParcel_flag0 parcelObj rest s :
  parcels s !! parcelObj = Some (0 :: rest) →
  android_view_InputChannel_nativeReadFromParcel parcelObj s
  = Some (0, set_parcels (insert parcelObj rest) s).
Proof.
  intros Hp. unfold android_view_InputChannel_nativeReadFromParcel.
  rewrite (bind_Some _ _ _ _ _ (parcelForJavaObject_Some _ _ _ Hp)).
  unfold Parcel_readInt32.
  by rewrite (bind_Some _ _ _ _ _ (with_parcel_Some _ _ _ _ Hp)).
Qed.

(** C4: nativeWriteToParcel appends the flag before anything else: for the
    reference 0 the single word 0; for a live handle the word 1 and then the
    channel's own encoding. nativeReadFromParcel consumes the flag first and
    on 0 returns 0, throwing nothing and reading no further. Writing the
    reference 0 to the emptied parcel and reading it back returns 0 and
    leaves the parcel empty again. *)
Theorem parcel_presence_flag (parcelObj : Z) (ws rest : list Z) (s : State) :
  parcels s !! parcelObj = Some ws →
  let with_words (ws' : list Z) := set_parcels (insert parcelObj ws') s in
  android_view_InputChannel_nativeWriteToParcel parcelObj 0 s
  = Some (tt, with_words (ws ++ [0]))
  ∧ (∀ channel n c,
        channel ≠ 0 → heap s !! channel = Some n → mInputChannel n = Some c →
        android_view_InputChannel_nativeWriteToParcel parcelObj channel s
        = Some (tt, with_words (ws ++ 1 :: InputChannel_write c)))
  ∧ android_view_InputChannel_nativeReadFromParcel parcelObj (with_words (0 :: rest))
    = Some (0, with_words rest)
  ∧ ∃ s1,
      android_view_InputChannel_nativeWriteToParcel parcelObj 0 (with_words [])
      = Some (tt, s1)
      ∧ android_view_InputChannel_nativeReadFromParcel parcelObj s1
        = Some (0, with_words []).
Proof.
  intros Hp with_words. unfold with_words.
  split; [by apply nativeWriteToParcel_absent|].
  split; [intros; by eapply nativeWriteToParcel_present|].
  split.
  { rewrite (nativeReadFromParcel_flag0 _ rest _ (parcels_set_parcels_insert _ _ _)).
    by rewrite set_parcels_insert_twice. }
  eexists. split.
  { apply nativeWriteToParcel_absent. apply parcels_set_parcels_insert. }
  cbn [app]. rewrite set_parcels_insert_twice.
  rewrite (nativeReadFromParcel_flag0 _ [] _ (parcels_set_parcels_insert _ _ _)).
  by rewrite set_parcels_insert_twice.
Qed.

(** C5: writing a live handle with a non-null channel [c] to an empty parcel
    and reading the parcel back allocates a new handle, distinct from every
    handle there was, with no callback, whose channel has the name and the
    token of [c]; the written handle is as it was. The codec is asked to
    invert its own encoding of [c]. *)
Theorem parcel_round_trip (parcelObj channel : Z) (s : State)
    (n : NativeInputChannel) (c : InputChannel) :
  parcels s !! parcelObj = Some [] →
  channel ≠ 0 →
  heap s !! channel = Some n →
  mInputChannel n = Some c →
  codec_inverts c →
  ∃ s1 r s2 c',
    android_view_InputChannel_nativeWriteToParcel parcelObj channel s = Some (tt, s1)
    ∧ android_view_InputChannel_nativeReadFromParcel parcelObj s1 = Some (r, s2)
    ∧ r ≠ 0
    ∧ heap s !! r = None
    ∧ heap s2 !! r = Some (mkNativeInputChannel (Some c') 0 Indeterminate)
    ∧ mName c' = mName c
    ∧ mToken c' = mToken c
    ∧ android_view_InputChannel_nativeGetName r s2 = Some (Some (mName c), s2)
    ∧ android_view_InputChannel_nativeGetToken r s2
      = Some (javaObjectForIBinder (mToken c), s2)
    ∧ heap s2 !! channel = Some n.
Proof.
  intros Hp H0 Hn Hc (c' & rest & Hread & Hname & Htoken).
  pose proof (nativeWriteToParcel_present _ _ _ _ _ _ Hp H0 Hn Hc) as Hw.
  cbn [app] in Hw.
  set (s1 := set_parcels (insert parcelObj (1 :: InputChannel_write c)) s) in *.
  set (sr := set_parcels (insert parcelObj rest) s).
  destruct (new_NativeInputChannel_spec (Some c') sr) as (r & Hnew & Hr0 & Hfresh).
  set (s2 := set_heap (insert r (mkNativeInputChannel (Some c') 0 Indeterminate)) sr) in *.
  assert (android_view_InputChannel_nativeReadFromParcel parcelObj s1 = Some (r, s2))
    as Hrd.
  { unfold android_view_InputChannel_nativeReadFromParcel, s1.
    rewrite (bind_Some _ _ _ _ _
               (parcelForJavaObject_Some _ _ _ (parcels_set_parcels_insert _ _ _))).
    unfold Parcel_readInt32.
    rewrite (bind_Some _ _ _ _ _
               (with_parcel_Some _ _ _ _ (parcels_set_parcels_insert _ _ _))).
    cbn [fst snd]. rewrite bool_decide_true by done.
    rewrite set_parcels_insert_twice.
    rewrite (bind_Some _ _ _ _ _
               (with_parcel_Some _ _ _ _ (parcels_set_parcels_insert _ _ _))).
    rewrite Hread. cbn [fst snd]. rewrite set_parcels_insert_twice. exact Hnew. }
  assert (heap s2 !! r = Some (mkNativeInputChannel (Some c') 0 Indeterminate)) as Hr
    by apply lookup_insert_eq.
  exists s1, r, s2, c'.
  split; [exact Hw|]. split; [exact Hrd|]. split; [exact Hr0|].
  split; [exact Hfresh|]. split; [exact Hr|]. split; [exact Hname|].
  split; [exact Htoken|].
  split; [rewrite <- Hname; by eapply nativeGetName_live|].
  split; [rewrite <- Htoken; by eapply nativeGetToken_live|].
  unfold s2, set_heap; cbn. rewrite lookup_insert_ne; [exact Hn|].
  intros ->. cbn in Hfresh. congruence.
Qed.

(** *** Duplication *)

(** What nativeDup does when [dup()] returns null: it throws, and then goes
    on to wrap the null channel in a new object, whose address it returns. *)
Lemma nativeDup_dup_null channel s n c :
  channel ≠ 0 → heap s !! channel = Some n → mInputChannel n = Some c →
  InputChannel_dup c = None →
  let s_thrown :=
    set_pendingException
      (Some (RuntimeException ("Could not duplicate input channel " +:+ mName c))) s in
  android_view_InputChannel_nativeDup channel s
  = Some (newAddress (heap s),
          set_heap (insert (newAddress (heap s))
                      (mkNativeInputChannel None 0 Indeterminate)) s_thrown).
Proof.
  intros H0 Hn Hc Hdup s_thrown. unfold android_view_InputChannel_nativeDup.
  rewrite bool_decide_false by done.
  unfold NativeInputChannel_getInputChannel.
  rewrite (bind_Some _ _ s (Some c) s).
  2:{ rewrite (bind_Some _ _ _ _ _ (deref_Some _ _ _ Hn)). by rewrite Hc. }
  by rewrite Hdup.
Qed.

Lemma nativeDup_dup_ok channel s n c c' :
  channel ≠ 0 → heap s !! channel = Some n → mInputChannel n = Some c →
  InputChannel_dup c = Some c' →
  android_view_InputChannel_nativeDup channel s
  = Some (newAddress (heap s),
          set_heap (insert (newAddress (heap s))
                      (mkNativeInputChannel (Some c') 0 Indeterminate)) s).
Proof.
  intros H0 Hn Hc Hdup. unfold android_view_InputChannel_nativeDup.
  rewrite bool_decide_false by done.
  unfold NativeInputChannel_getInputChannel.
  rewrite (bind_Some _ _ s (Some c) s).
  2:{ rewrite (bind_Some _ _ _ _ _ (deref_Some _ _ _ Hn)). by rewrite Hc. }
  by rewrite Hdup.
Qed.

(** C6, what the code does: when [dup()] fails on a live handle, nativeDup
    throws a RuntimeException naming the channel and leaves the handle as it
    was, but it returns a non-zero reference to a newly allocated handle that
    holds a null channel. *)
Theorem nativeDup_failure_returns_handle (channel : Z) (s : State)
    (n : NativeInputChannel) (c : InputChannel) :
  channel ≠ 0 →
  heap s !! channel = Some n →
  mInputChannel n = Some c →
  InputChannel_dup c = None →
  ∃ r s',
    android_view_InputChannel_nativeDup channel s = Some (r, s')
    ∧ pendingException s'
      = Some (RuntimeException ("Could not duplicate input channel " +:+ mName c))
    ∧ heap s' !! channel = Some n
    ∧ r ≠ 0
    ∧ heap s !! r = None
    ∧ heap s' !! r = Some (mkNativeInputChannel None 0 Indeterminate).
Proof.
  intros H0 Hn Hc Hdup. eexists _, _.
  split; [by eapply nativeDup_dup_null|].
  split; [done|].
  pose proof (newAddress_fresh (heap s)) as Hfresh.
  split.
  { cbn. rewrite lookup_insert_ne; [done|]. intros E. congruence. }
  split; [apply newAddress_nonzero|].
  split; [done|]. apply lookup_insert_eq.
Qed.

(** C3, what the code does: when [dup()] fails on a live handle, the
    reference nativeDup returns is neither 0 nor the address of a handle with
    a non-null channel. *)
Theorem nativeDup_breaks_boundary (channel : Z) (s : State)
    (n : NativeInputChannel) (c : InputChannel) :
  channel ≠ 0 →
  heap s !! channel = Some n →
  mInputChannel n = Some c →
  InputChannel_dup c = None →
  ∃ r s',
    android_view_InputChannel_nativeDup channel s = Some (r, s')
    ∧ ¬ boundary_ok r s'.
Proof.
  intros H0 Hn Hc Hdup. eexists _, _.
  split; [by eapply nativeDup_dup_null|].
  intros [E | (n' & c' & Hn' & Hc')].
  - by apply (newAddress_nonzero (heap s)).
  - cbn in Hn'. rewrite lookup_insert_eq in Hn'. by simplify_eq.
Qed.

(** The other references handed out do satisfy the invariant: a successful
    duplicate, and a handle read from a parcel whose decoder gave a channel. *)
Lemma nativeDup_success_boundary channel s n c c' :
  channel ≠ 0 → heap s !! channel = Some n → mInputChannel n = Some c →
  InputChannel_dup c = Some c' →
  ∃ r s', android_view_InputChannel_nativeDup channel s = Some (r, s')
          ∧ boundary_ok r s'
          ∧ heap s' !! r = Some (mkNativeInputChannel (Some c') 0 Indeterminate)
          ∧ pendingException s' = pendingException s.
Proof.
  intros H0 Hn Hc Hdup. eexists _, _.
  split; [by eapply nativeDup_dup_ok|].
  assert (heap (set_heap (insert (newAddress (heap s))
                  (mkNativeInputChannel (Some c') 0 Indeterminate)) s)
            !! newAddress (heap s)
          = Some (mkNativeInputChannel (Some c') 0 Indeterminate)) as Hr
    by apply lookup_insert_eq.
  split; [right; by eexists _, _|]. by split.
Qed.

Lemma nativeReadFromParcel_outcome parcelObj s :
  ∃ r s', android_view_InputChannel_nativeReadFromParcel parcelObj s = Some (r, s')
          ∧ (r = 0
             ∨ ∃ ws, parcels s !! parcelObj = Some ws
                     ∧ r ≠ 0
                     ∧ heap s' !! r
                       = Some (mkNativeInputChannel
                                 (InputChannel_read (drop 1 ws)).1 0 Indeterminate)).
Proof.
  unfold android_view_InputChannel_nativeReadFromParcel.
  destruct (parcels s !! parcelObj) as [ws|] eqn:Hp.
  2:{ exists 0, s. split; [|by left].
      unfold mbind, M_bind, parcelForJavaObject, gets. by rewrite Hp. }
  rewrite (bind_Some _ _ _ _ _ (parcelForJavaObject_Some _ _ _ Hp)).
  unfold Parcel_readInt32.
  rewrite (bind_Some _ _ _ _ _ (with_parcel_Some _ _ _ _ Hp)).
  destruct ws as [|v rest]; cbn [fst snd].
  { rewrite bool_decide_false by (by intros []). eexists _, _. split; [done|by left]. }
  destruct (decide (v = 0)) as [->|Hv].
  { rewrite bool_decide_false by (by intros []). eexists _, _. split; [done|by left]. }
  rewrite bool_decide_true by done.
  rewrite (bind_Some _ _ _ _ _
             (with_parcel_Some _ _ _ _ (parcels_set_parcels_insert _ _ _))).
  eexists _, _. split; [reflexivity|]. right. exists (v :: rest).
  split; [done|]. split; [apply newAddress_nonzero|]. apply lookup_insert_eq.
Qed.

(** *** Opening a pair *)

Lemma openInputChannelPair_transport_error name s result server client :
  InputChannel_openInputChannelPair name = (result, server, client) →
  result ≠ 0 →
  android_view_InputChannel_nativeOpenInputChannelPair (Some name) s
  = Some (None,
          set_pendingException
            (Some (RuntimeException
                     ("Could not open input channel pair : " +:+ strerror (- result)))) s).
Proof.
  intros Hopen Hres. unfold android_view_InputChannel_nativeOpenInputChannelPair.
  rewrite (bind_Some _ _ s name s) by done.
  rewrite Hopen. by rewrite bool_decide_true.
Qed.

Lemma openInputChannelPair_no_array name s server client :
  InputChannel_openInputChannelPair name = (0, server, client) →
  NewLongArray_ok s = false →
  android_view_InputChannel_nativeOpenInputChannelPair (Some name) s
  = Some (None, set_pendingException (Some OutOfMemoryError) s).
Proof.
  intros Hopen Harr. unfold android_view_InputChannel_nativeOpenInputChannelPair.
  rewrite (bind_Some _ _ s name s) by done.
  rewrite Hopen. rewrite bool_decide_false by (by intros []).
  erewrite bind_Some; [|unfold NewLongArray; by rewrite Harr]. done.
Qed.

Lemma openInputChannelPair_pair name s server client :
  InputChannel_openInputChannelPair name = (0, server, client) →
  NewLongArray_ok s = true →
  pendingException s = None →
  let a := newAddress (heap s) in
  let sa := set_heap (insert a (mkNativeInputChannel server 0 Indeterminate)) s in
  let b := newAddress (heap sa) in
  let sb := set_heap (insert b (mkNativeInputChannel client 0 Indeterminate)) sa in
  android_view_InputChannel_nativeOpenInputChannelPair (Some name) s
  = Some (Some [a; b], sb).
Proof.
  intros Hopen Harr Hexc a sa b sb.
  unfold android_view_InputChannel_nativeOpenInputChannelPair.
  rewrite (bind_Some _ _ s name s) by done.
  rewrite Hopen. rewrite bool_decide_false by (by intros []).
  erewrite bind_Some; [|unfold NewLongArray; by rewrite Harr]. cbn [negb].
  unfold android_view_InputChannel_createInputChannel.
  rewrite (bind_Some _ _ s a sa) by done.
  rewrite (bind_Some _ _ sa false sa).
  2:{ unfold ExceptionCheck, gets. cbn. rewrite Hexc.
      by rewrite bool_decide_false by (by intros [? ?]). }
  rewrite (bind_Some _ _ sa b sb) by done.
  rewrite (bind_Some _ _ sb false sb); [done|].
  unfold ExceptionCheck, gets. cbn. rewrite Hexc.
  by rewrite bool_decide_false by (by intros [? ?]).
Qed.

(** Whatever the state at entry, the call returns: no array, or an array of
    exactly two references. *)
Lemma openInputChannelPair_none_or_two name s :
  ∃ r s',
    android_view_InputChannel_nativeOpenInputChannelPair (Some name) s = Some (r, s')
    ∧ (r = None ∨ ∃ a b, r = Some [a; b]).
Proof.
  unfold android_view_InputChannel_nativeOpenInputChannelPair.
  rewrite (bind_Some _ _ s name s) by done.
  destruct (InputChannel_openInputChannelPair name) as [[result server] client].
  case_bool_decide.
  { eexists _, _. split; [by erewrite bind_Some|by left]. }
  unfold mbind, M_bind, NewLongArray, ExceptionCheck, gets,
    android_view_InputChannel_createInputChannel, new_NativeInputChannel.
  destruct (NewLongArray_ok s); cbn [negb].
  2:{ eexists _, _. split; [done|by left]. }
  repeat case_bool_decide;
    (eexists _, _; split; [done|]); (by left) || (right; by eauto).
Qed.

(** C7 as amended: entered with no exception pending, and over a transport
    that names both ends [name], nativeOpenInputChannelPair ends in one of
    three ways. The transport failed: no array, no new handle, and a
    RuntimeException with the system's error text. The array could not be
    allocated: no array, no new handle, and the runtime's OutOfMemoryError.
    Otherwise: an array of two distinct new handles, wrapping the server and
    the client end, both reporting [name]. *)
Theorem open_pair_outcomes (name : string) (s : State) (result : Z)
    (server client : option InputChannel) :
  pendingException s = None →
  InputChannel_openInputChannelPair name = (result, server, client) →
  transport_contract name →
  (result ≠ 0
   ∧ android_view_InputChannel_nativeOpenInputChannelPair (Some name) s
     = Some (None,
             set_pendingException
               (Some (RuntimeException
                        ("Could not open input channel pair : "
                         +:+ strerror (- result)))) s))
  ∨ (result = 0 ∧ NewLongArray_ok s = false
     ∧ android_view_InputChannel_nativeOpenInputChannelPair (Some name) s
       = Some (None, set_pendingException (Some OutOfMemoryError) s))
  ∨ (result = 0 ∧ NewLongArray_ok s = true
     ∧ ∃ a b c1 c2 s',
         android_view_InputChannel_nativeOpenInputChannelPair (Some name) s
         = Some (Some [a; b], s')
         ∧ server = Some c1 ∧ client = Some c2
         ∧ a ≠ 0 ∧ b ≠ 0 ∧ a ≠ b
         ∧ heap s !! a = None ∧ heap s !! b = None
         ∧ heap s' !! a = Some (mkNativeInputChannel (Some c1) 0 Indeterminate)
         ∧ heap s' !! b = Some (mkNativeInputChannel (Some c2) 0 Indeterminate)
         ∧ android_view_InputChannel_nativeGetName a s' = Some (Some name, s')
         ∧ android_view_InputChannel_nativeGetName b s' = Some (Some name, s')
         ∧ pendingException s' = None).
Proof.
  intros Hexc Hopen Hcontract.
  destruct (decide (result = 0)) as [->|Hres].
  2:{ left. split; [done|]. by eapply openInputChannelPair_transport_error. }
  right. destruct (NewLongArray_ok s) eqn:Harr.
  2:{ left. split; [done|]. split; [done|]. by eapply openInputChannelPair_no_array. }
  right. split; [done|]. split; [done|].
  destruct (Hcontract server client Hopen) as (c1 & c2 & -> & -> & Hn1 & Hn2).
  pose proof (openInputChannelPair_pair name s _ _ Hopen Harr Hexc) as Hrun.
  cbv zeta in Hrun.
  set (a := newAddress (heap s)) in *.
  set (sa := set_heap (insert a (mkNativeInputChannel (Some c1) 0 Indeterminate)) s) in *.
  set (b := newAddress (heap sa)) in *.
  set (sb := set_heap (insert b (mkNativeInputChannel (Some c2) 0 Indeterminate)) sa) in *.
  assert (a ≠ 0) as Ha0 by apply newAddress_nonzero.
  assert (b ≠ 0) as Hb0 by apply newAddress_nonzero.
  assert (heap s !! a = None) as Hafresh by apply newAddress_fresh.
  assert (heap sa !! b = None) as Hbfresh by apply newAddress_fresh.
  assert (a ≠ b) as Hab.
  { intros E. rewrite <- E in Hbfresh. unfold sa in Hbfresh. cbn in Hbfresh.
    by rewrite lookup_insert_eq in Hbfresh. }
  assert (heap sb !! a = Some (mkNativeInputChannel (Some c1) 0 Indeterminate)) as Ha.
  { unfold sb, sa. cbn. rewrite lookup_insert_ne by done. apply lookup_insert_eq. }
  assert (heap sb !! b = Some (mkNativeInputChannel (Some c2) 0 Indeterminate)) as Hb
    by apply lookup_insert_eq.
  exists a, b, c1, c2, sb.
  split; [exact Hrun|]. split; [done|]. split; [done|].
  split; [done|]. split; [done|]. split; [done|]. split; [done|].
  split.
  { unfold sa in Hbfresh. cbn in Hbfresh. by rewrite lookup_insert_ne in Hbfresh. }
  split; [done|]. split; [done|].
  split; [rewrite <- Hn1; by eapply nativeGetName_live|].
  split; [rewrite <- Hn2; by eapply nativeGetName_live|].
  done.
Qed.

End Facts.

(** ** The theorems on the reference platform *)

Lemma ref_callback_keeps openStatus dupOk arrayOk this :
  @callback_keeps (refPlatform openStatus dupOk arrayOk) this.
Proof.
  intros cb obj ch d s n Hn. cbn [runDisposeCallback refPlatform].
  unfold ref_callback. destruct d as [|p]; [by eauto|].
  unfold NativeInputChannel_setDisposeCallback, mbind, M_bind, deref, modify.
  cbn [heap add_log].
  destruct (heap s !! p) as [m|] eqn:Hm; [|by eauto].
  split; [done|]. cbn [heap set_heap add_log].
  destruct (decide (p = this)) as [->|Hne].
  - rewrite lookup_insert_eq. eexists. split; [done|]. cbn. congruence.
  - rewrite lookup_insert_ne by done. by eauto.
Qed.

Lemma ref_transport_contract dupOk arrayOk name :
  @transport_contract (refPlatform 0 dupOk arrayOk) name.
Proof.
  intros server client H. cbn in H. injection H as <- <-. by eauto 10.
Qed.




(** Three disposals of handle 1 of [s0], then the accessors, then the
    finalizer. *)
Lemma dispose_keeps_handle_witness :
  ∃ s' n',
    @dispose_times (refPlatform 0 true true) 3 20 1 s0 = Some (tt, s')
    ∧ heap s' !! 1 = Some n'
    ∧ mInputChannel n' = Some chanX
    ∧ android_view_InputChannel_nativeGetName 1 s' = Some (Some "x", s')
    ∧ @android_view_InputChannel_nativeGetToken (refPlatform 0 true true) 1 s'
      = Some (7, s')
    ∧ ∃ s'', InputChannel_nativeDestroy 1 s' = Some (tt, s'')
             ∧ heap s'' !! 1 = None.
Proof.
  apply (@dispose_keeps_handle (refPlatform 0 true true) 1 20 3 s0
           (mkNativeInputChannel (Some chanX) 5 (Addr 1)) chanX).
  - lia.
  - reflexivity.
  - reflexivity.
  - apply ref_callback_keeps.
Defined.


(** The flag on Java Parcel 30 of [s0]: written for the reference 0 and for
    handle 1, read from the words [0; 5], and round the trip. *)
Lemma parcel_presence_flag_witness :
  let P := refPlatform 0 true true in
  @android_view_InputChannel_nativeWriteToParcel P 30 0 s0
  = Some (tt, set_parcels (insert 30 [0]) s0)
  ∧ @android_view_InputChannel_nativeWriteToParcel P 30 1 s0
    = Some (tt, set_parcels (insert 30 [1; 1; 120; 10; 1; 7]) s0)
  ∧ @android_view_InputChannel_nativeReadFromParcel P 30
      (set_parcels (insert 30 [0; 5]) s0)
    = Some (0, set_parcels (insert 30 [5]) s0)
  ∧ ∃ s1,
      @android_view_InputChannel_nativeWriteToParcel P 30 0
        (set_parcels (insert 30 []) s0)
      = Some (tt, s1)
      ∧ @android_view_InputChannel_nativeReadFromParcel P 30 s1
        = Some (0, set_parcels (insert 30 []) s0).
Proof.
  intros P.
  destruct (@parcel_presence_flag P 30 [] [5] s0 eq_refl)
    as (Habsent & Hpresent & Hread & Hround).
  split; [exact Habsent|].
  split.
  { refine (Hpresent 1 (mkNativeInputChannel (Some chanX) 5 (Addr 1)) chanX
              _ eq_refl eq_refl). lia. }
  split; [exact Hread|exact Hround].
Defined.

Lemma ref_codec_inverts_chanX : @codec_inverts (refPlatform 0 true true) chanX.
Proof. eexists _, _. split; [vm_compute; reflexivity|]. by split. Qed.

(** Handle 1 of [s0] written to Java Parcel 30 and read back: the new handle
    is at address 2 and wraps a channel named as, and with the token of, the
    first, on a descriptor of its own. *)
Lemma parcel_round_trip_witness :
  ∃ s1 r s2 c',
    @android_view_InputChannel_nativeWriteToParcel (refPlatform 0 true true) 30 1 s0
    = Some (tt, s1)
    ∧ @android_view_InputChannel_nativeReadFromParcel (refPlatform 0 true true) 30 s1
      = Some (r, s2)
    ∧ r ≠ 0
    ∧ heap s0 !! r = None
    ∧ heap s2 !! r = Some (mkNativeInputChannel (Some c') 0 Indeterminate)
    ∧ mName c' = "x"
    ∧ mToken c' = Some 7
    ∧ android_view_InputChannel_nativeGetName r s2 = Some (Some "x", s2)
    ∧ @android_view_InputChannel_nativeGetToken (refPlatform 0 true true) r s2
      = Some (7, s2)
    ∧ heap s2 !! 1 = Some (mkNativeInputChannel (Some chanX) 5 (Addr 1)).
Proof.
  apply (@parcel_round_trip (refPlatform 0 true true) 30 1 s0
           (mkNativeInputChannel (Some chanX) 5 (Addr 1)) chanX).
  - reflexivity.
  - lia.
  - reflexivity.
  - reflexivity.
  - apply ref_codec_inverts_chanX.
Defined.

(** The failing input of C6: handle 1 of [s0] on a platform whose [dup()]
    fails. *)
Lemma nativeDup_failure_returns_handle_witness :
  ∃ r s',
    @android_view_InputChannel_nativeDup (refPlatform 0 false true) 1 s0 = Some (r, s')
    ∧ pendingException s'
      = Some (RuntimeException "Could not duplicate input channel x")
    ∧ heap s' !! 1 = Some (mkNativeInputChannel (Some chanX) 5 (Addr 1))
    ∧ r ≠ 0
    ∧ heap s0 !! r = None
    ∧ heap s' !! r = Some (mkNativeInputChannel None 0 Indeterminate).
Proof.
  apply (@nativeDup_failure_returns_handle (refPlatform 0 false true) 1 s0
           (mkNativeInputChannel (Some chanX) 5 (Addr 1)) chanX).
  - lia.
  - reflexivity.
  - reflexivity.
  - reflexivity.
Defined.

(** The failing input of C3, the same as that of C6. *)
Lemma nativeDup_breaks_boundary_witness :
  ∃ r s',
    @android_view_InputChannel_nativeDup (refPlatform 0 false true) 1 s0 = Some (r, s')
    ∧ ¬ boundary_ok r s'.
Proof.
  apply (@nativeDup_breaks_boundary (refPlatform 0 false true) 1 s0
           (mkNativeInputChannel (Some chanX) 5 (Addr 1)) chanX).
  - lia.
  - reflexivity.
  - reflexivity.
  - reflexivity.
Defined.

(** Opening the pair "x" from [s0] when transport and array both succeed:
    the third outcome, with the handles at addresses 2 and 3. *)
Lemma open_pair_outcomes_witness :
  let P := refPlatform 0 true true in
  (0 ≠ 0
   ∧ @android_view_InputChannel_nativeOpenInputChannelPair P (Some "x") s0
     = Some (None,
             set_pendingException
               (Some (RuntimeException
                        ("Could not open input channel pair : "
                         +:+ @strerror P (- 0)))) s0))
  ∨ (0 = 0 ∧ @NewLongArray_ok P s0 = false
     ∧ @android_view_InputChannel_nativeOpenInputChannelPair P (Some "x") s0
       = Some (None, set_pendingException (Some OutOfMemoryError) s0))
  ∨ (0 = 0 ∧ @NewLongArray_ok P s0 = true
     ∧ ∃ a b c1 c2 s',
         @android_view_InputChannel_nativeOpenInputChannelPair P (Some "x") s0
         = Some (Some [a; b], s')
         ∧ Some (mkInputChannel "x" 10 (Some 7)) = Some c1
         ∧ Some (mkInputChannel "x" 11 (Some 7)) = Some c2
         ∧ a ≠ 0 ∧ b ≠ 0 ∧ a ≠ b
         ∧ heap s0 !! a = None ∧ heap s0 !! b = None
         ∧ heap s' !! a = Some (mkNativeInputChannel (Some c1) 0 Indeterminate)
         ∧ heap s' !! b = Some (mkNativeInputChannel (Some c2) 0 Indeterminate)
         ∧ android_view_InputChannel_nativeGetName a s' = Some (Some "x", s')
         ∧ android_view_InputChannel_nativeGetName b s' = Some (Some "x", s')
         ∧ pendingException s' = None).
Proof.
  apply (@open_pair_outcomes (refPlatform 0 true true) "x" s0 0
           (Some (mkInputChannel "x" 10 (Some 7)))
           (Some (mkInputChannel "x" 11 (Some 7)))).
  - reflexivity.
  - reflexivity.
  - apply ref_transport_contract.
Defined.

(** C7 as stated fails: when the transport succeeds and the array cannot be
    allocated, the call returns no array, and what is pending is not the
    RuntimeException of a transport failure. *)
Lemma open_pair_third_outcome :
  @android_view_InputChannel_nativeOpenInputChannelPair
    (refPlatform 0 true false) (Some "x") s0
  = Some (None, set_pendingException (Some OutOfMemoryError) s0)
  ∧ ¬ @pair_or_transport_error (refPlatform 0 true false) "x" s0.
Proof.
  assert (@android_view_InputChannel_nativeOpenInputChannelPair
            (refPlatform 0 true false) (Some "x") s0
          = Some (None, set_pendingException (Some OutOfMemoryError) s0)) as Hrun.
  { by eapply (@openInputChannelPair_no_array (refPlatform 0 true false)). }
  split; [exact Hrun|].
  intros [(a & b & s' & na & nb & ca & cb & H & _) | (e & s' & H & Hexc)];
    rewrite Hrun in H.
  - discriminate H.
  - injection H as <-. cbn in Hexc. discriminate Hexc.
Qed.

(** ** Further properties of the entry points *)

Section MoreFacts.
Context `{P : Platform}.

(** *** Accessors *)

(** X1: nativeGetName and nativeGetToken on every reference. On 0 they
    return null; on a live handle with a channel they return its name and
    the Java object of its token; in both cases the state is unchanged. On
    any other reference, dangling or of a handle whose channel is null, they
    dereference it all the same and have no defined result. *)
Theorem accessors_by_reference (channel : Z) (s : State) :
  (channel = 0
   ∧ android_view_InputChannel_nativeGetName channel s = Some (None, s)
   ∧ android_view_InputChannel_nativeGetToken channel s = Some (0, s))
  ∨ (∃ n c,
        channel ≠ 0 ∧ heap s !! channel = Some n ∧ mInputChannel n = Some c
        ∧ android_view_InputChannel_nativeGetName channel s
          = Some (Some (mName c), s)
        ∧ android_view_InputChannel_nativeGetToken channel s
          = Some (javaObjectForIBinder (mToken c), s))
  ∨ (channel ≠ 0
     ∧ (heap s !! channel = None
        ∨ ∃ n, heap s !! channel = Some n ∧ mInputChannel n = None)
     ∧ android_view_InputChannel_nativeGetName channel s = None
     ∧ android_view_InputChannel_nativeGetToken channel s = None).
Proof.
  destruct (decide (channel = 0)) as [->|H0].
  { left. split; [done|]. split.
    - unfold android_view_InputChannel_nativeGetName. by rewrite bool_decide_true.
    - unfold android_view_InputChannel_nativeGetToken.
      by rewrite bool_decide_false by (by intros []). }
  right. destruct (heap s !! channel) as [n|] eqn:Hn.
  - destruct (mInputChannel n) as [c|] eqn:Hc.
    + left. exists n, c. split; [done|]. split; [done|]. split; [done|].
      split; [by eapply nativeGetName_live | by eapply nativeGetToken_live].
    + right. split; [done|]. split; [right; by eauto|].
      unfold android_view_InputChannel_nativeGetName,
        android_view_InputChannel_nativeGetToken, NativeInputChannel_getInputChannel.
      rewrite bool_decide_false by done. rewrite bool_decide_true by done.
      unfold mbind, M_bind, deref. rewrite Hn. cbn. by rewrite Hc.
  - right. split; [done|]. split; [by left|].
    unfold android_view_InputChannel_nativeGetName,
      android_view_InputChannel_nativeGetToken, NativeInputChannel_getInputChannel.
    rewrite bool_decide_false by done. rewrite bool_decide_true by done.
    unfold mbind, M_bind, deref. by rewrite Hn.
Qed.

(** *** The finalizer *)


(** *** Duplication *)

(** X3: a successful nativeDup returns a new non-zero reference, distinct from
    the original, to a handle that wraps the duplicated channel and has no
    dispose callback, whatever callback the original has: disposing the
    duplicate calls nothing. The original handle, the pending exception and
    the callbacks called so far are unchanged, and the duplicate outlives the
    original: after the finalizer has run on the original, nativeGetName on
    the duplicate still returns the duplicated channel's name. *)
Theorem nativeDup_success (channel obj : Z) (s : State) (n : NativeInputChannel)
    (c c' : InputChannel) :
  channel ≠ 0 →
  heap s !! channel = Some n →
  mInputChannel n = Some c →
  InputChannel_dup c = Some c' →
  ∃ r s',
    android_view_InputChannel_nativeDup channel s = Some (r, s')
    ∧ r ≠ 0 ∧ r ≠ channel
    ∧ heap s !! r = None
    ∧ heap s' !! r = Some (mkNativeInputChannel (Some c') 0 Indeterminate)
    ∧ heap s' !! channel = Some n
    ∧ pendingException s' = pendingException s
    ∧ hookCalls s' = hookCalls s
    ∧ android_view_InputChannel_nativeDispose obj r s' = Some (tt, s')
    ∧ ∃ s'',
        InputChannel_nativeDestroy channel s' = Some (tt, s'')
        ∧ android_view_InputChannel_nativeGetName r s'' = Some (Some (mName c'), s'').
Proof.
  intros H0 Hn Hc Hdup.
  pose proof (nativeDup_dup_ok channel s n c c' H0 Hn Hc Hdup) as Hrun.
  set (r := newAddress (heap s)) in *.
  set (s' := set_heap (insert r (mkNativeInputChannel (Some c') 0 Indeterminate)) s) in *.
  assert (r ≠ 0) as Hr0 by apply newAddress_nonzero.
  assert (heap s !! r = None) as Hfresh by apply newAddress_fresh.
  assert (r ≠ channel) as Hne by (intros E; rewrite E in Hfresh; congruence).
  assert (heap s' !! r = Some (mkNativeInputChannel (Some c') 0 Indeterminate)) as Hr
    by apply lookup_insert_eq.
  assert (heap s' !! channel = Some n) as Hch.
  { unfold s'. cbn. by rewrite lookup_insert_ne. }
  exists r, s'. split; [exact Hrun|].
  split; [done|]. split; [done|]. split; [done|]. split; [done|]. split; [done|].
  split; [done|]. split; [done|].
  split.
  { unfold android_view_InputChannel_nativeDispose. rewrite bool_decide_true by done.
    by eapply invokeAndRemove_no_callback. }
  eexists. split; [by eapply nativeDestroy_live|].
  eapply (nativeGetName_live r _ (mkNativeInputChannel (Some c') 0 Indeterminate) c');
    [done| |done].
  cbn. rewrite lookup_delete_ne by done. by rewrite lookup_insert_eq.
Qed.

(** *** Parcels *)

Lemma nativeReadFromParcel_flag_nonzero parcelObj flag ws s :
  parcels s !! parcelObj = Some (flag :: ws) →
  flag ≠ 0 →
  android_view_InputChannel_nativeReadFromParcel parcelObj s
  = Some (newAddress (heap s),
          set_heap (insert (newAddress (heap s))
                      (mkNativeInputChannel (InputChannel_read ws).1 0 Indeterminate))
            (set_parcels (insert parcelObj (InputChannel_read ws).2) s)).
Proof.
  intros Hp Hflag.
  unfold android_view_InputChannel_nativeReadFromParcel.
  rewrite (bind_Some _ _ _ _ _ (parcelForJavaObject_Some _ _ _ Hp)).
  unfold Parcel_readInt32.
  rewrite (bind_Some _ _ _ _ _ (with_parcel_Some _ _ _ _ Hp)). cbn [fst snd].
  rewrite bool_decide_true by done.
  rewrite (bind_Some _ _ _ _ _
             (with_parcel_Some _ _ _ _ (parcels_set_parcels_insert _ _ _))).
  by rewrite set_parcels_insert_twice.
Qed.

(** X4: nativeReadFromParcel takes every non-zero flag word as "present". It
    then consumes what the channel decoder consumes and returns a new
    non-zero reference to a handle, without a callback, around whatever the
    decoder returned, null included; it throws nothing and leaves every
    other handle as it was. *)
Theorem nativeReadFromParcel_nonzero_flag (parcelObj flag : Z) (ws : list Z)
    (s : State) :
  parcels s !! parcelObj = Some (flag :: ws) →
  flag ≠ 0 →
  ∃ r s',
    android_view_InputChannel_nativeReadFromParcel parcelObj s = Some (r, s')
    ∧ r ≠ 0
    ∧ heap s !! r = None
    ∧ heap s' !! r
      = Some (mkNativeInputChannel (InputChannel_read ws).1 0 Indeterminate)
    ∧ parcels s' !! parcelObj = Some (InputChannel_read ws).2
    ∧ pendingException s' = pendingException s
    ∧ hookCalls s' = hookCalls s
    ∧ ∀ q, q ≠ r → heap s' !! q = heap s !! q.
Proof.
  intros Hp Hflag. eexists _, _.
  split; [by eapply nativeReadFromParcel_flag_nonzero|].
  split; [apply newAddress_nonzero|].
  split; [apply newAddress_fresh|].
  split; [apply lookup_insert_eq|].
  split; [apply lookup_insert_eq|].
  split; [done|]. split; [done|].
  intros q Hq. cbn. by rewrite lookup_insert_ne.
Qed.

(** *** Registration and disposal together *)


Lemma dispose_times_no_callback k obj this s n :
  this ≠ 0 → heap s !! this = Some n → mDisposeCallback n = 0 →
  dispose_times k obj this s = Some (tt, s).
Proof.
  intros H0 Hn Hcb. induction k as [|k IH]; [done|].
  cbn [dispose_times].
  rewrite (bind_Some _ _ s tt s); [exact IH|].
  unfold android_view_InputChannel_nativeDispose.
  rewrite bool_decide_true by done. by eapply invokeAndRemove_no_callback.
Qed.

(** X6: any positive number of disposals in a row of a live handle does
    what one disposal does. *)
Theorem dispose_times_idempotent (this obj : Z) (k : nat) (s : State)
    (n : NativeInputChannel) :
  this ≠ 0 →
  heap s !! this = Some n →
  callback_keeps this →
  is_Some (android_view_InputChannel_nativeDispose obj this s)
  ∧ dispose_times (S k) obj this s
    = android_view_InputChannel_nativeDispose obj this s.
Proof.
  intros H0 Hn Hk. cbn [dispose_times].
  assert (∃ s1 n1, android_view_InputChannel_nativeDispose obj this s = Some (tt, s1)
                   ∧ heap s1 !! this = Some n1 ∧ mDisposeCallback n1 = 0)
    as (s1 & n1 & Hrun & Hn1 & Hcb1).
  { unfold android_view_InputChannel_nativeDispose.
    rewrite bool_decide_true by done.
    destruct (decide (mDisposeCallback n = 0)) as [Hcb|Hcb].
    - exists s, n. by rewrite (invokeAndRemove_no_callback _ _ _ _ Hn Hcb).
    - destruct (invokeAndRemove_callback this obj s n Hn Hcb Hk) as [Hrun _].
      eexists _, _. split; [exact Hrun|]. split; [apply lookup_insert_eq|done]. }
  split; [rewrite Hrun; by eauto|].
  rewrite (bind_Some _ _ _ _ _ Hrun). rewrite Hrun.
  by eapply dispose_times_no_callback.
Qed.

(** *** Opening a pair *)


(** *** What a sequence of calls keeps *)

Lemma bind_inv {A B} (m : M A) (f : A → M B) s b s' :
  (m ≫= f) s = Some (b, s') → ∃ a s1, m s = Some (a, s1) ∧ f a s1 = Some (b, s').
Proof.
  unfold mbind, M_bind. destruct (m s) as [[a s1]|]; [by eauto|done].
Qed.

Lemma preserves_bind {A B} q (m : M A) (f : A → M B) :
  preserves q m → (∀ a, preserves q (f a)) → preserves q (m ≫= f).
Proof.
  intros Hm Hf ch s b s' Hq Hrun.
  apply bind_inv in Hrun as (a & s1 & Hrun1 & Hrun2).
  eapply Hf; [|exact Hrun2]. by eapply Hm.
Qed.

Lemma preserves_ret {A} q (a : A) : preserves q (mret a).
Proof. intros ch s a' s' Hq Hrun. by injection Hrun as <- <-. Qed.

Lemma preserves_undefined {A} q : preserves q (@undefined A).
Proof. by intros ch s a s' Hq Hrun. Qed.

Lemma preserves_gets {A} q (f : State → A) : preserves q (gets f).
Proof. intros ch s a s' Hq Hrun. unfold gets in Hrun. by simplify_eq. Qed.

Lemma preserves_modify q (f : State → State) :
  (∀ s, heap (f s) = heap s) → preserves q (modify f).
Proof.
  intros Hf ch s a s' (n & Hn & Hch) Hrun. unfold modify in Hrun. simplify_eq.
  exists n. by rewrite Hf.
Qed.

Lemma preserves_deref q p : preserves q (deref p).
Proof.
  intros ch s a s' Hq Hrun. unfold deref in Hrun.
  destruct (heap s !! p); by simplify_eq.
Qed.

Lemma preserves_deref_sp {A} q (p : option A) : preserves q (deref_sp p).
Proof. destruct p; [apply preserves_ret|apply preserves_undefined]. Qed.

Lemma preserves_with_parcel {A} q parcel (f : list Z → A * list Z) :
  preserves q (with_parcel parcel f).
Proof.
  intros ch s a s' Hq Hrun. unfold with_parcel in Hrun.
  destruct (parcels s !! parcel) as [ws|]; [|done].
  destruct (f ws) as [a' ws']. by simplify_eq.
Qed.

Lemma preserves_new q ch0 : preserves q (new_NativeInputChannel ch0).
Proof.
  intros ch s a s' (n & Hn & Hch) Hrun. unfold new_NativeInputChannel in Hrun.
  simplify_eq. exists n. split; [|done]. cbn. rewrite lookup_insert_ne; [done|].
  intros E. pose proof (newAddress_fresh (heap s)) as Hfresh. congruence.
Qed.

(** Writing callback and data of the object at [this] keeps its channel. *)
Lemma preserves_write_slot q this cb d :
  preserves q (n ← deref this;
               modify (set_heap
                         (insert this (mkNativeInputChannel (mInputChannel n) cb d)))).
Proof.
  intros ch s a s' (n & Hn & Hch) Hrun.
  apply bind_inv in Hrun as (nt & s1 & Hderef & Hmod).
  unfold deref in Hderef. destruct (heap s !! this) as [nt'|] eqn:Ht; [|done].
  unfold modify in Hmod. simplify_eq.
  destruct (decide (this = q)) as [->|Hne].
  - eexists. split; [apply lookup_insert_eq|]. cbn. congruence.
  - exists n. split; [|done]. cbn. by rewrite lookup_insert_ne.
Qed.

Lemma preserves_getInputChannel q this :
  preserves q (NativeInputChannel_getInputChannel this).
Proof.
  apply preserves_bind; [apply preserves_deref|intros; apply preserves_ret].
Qed.

Lemma preserves_throw q msg : preserves q (jniThrowRuntimeException msg).
Proof. by apply preserves_modify. Qed.

Lemma preserves_invokeAndRemove q this obj :
  callback_keeps q →
  preserves q (NativeInputChannel_invokeAndRemoveDisposeCallback this obj).
Proof.
  intros Hk. unfold NativeInputChannel_invokeAndRemoveDisposeCallback.
  apply preserves_bind; [apply preserves_deref|]. intros n.
  case_bool_decide; [|apply preserves_ret].
  apply preserves_bind; [|intros; apply preserves_write_slot].
  intros ch s a s' (nq & Hnq & Hch) Hrun.
  unfold call_mDisposeCallback, modify in Hrun. simplify_eq.
  destruct (Hk (mDisposeCallback n) obj (mInputChannel n) (mDisposeData n)
              (add_hookCall
                 (mkHookCall (mDisposeCallback n) obj (mInputChannel n) (mDisposeData n)) s)
              nq Hnq) as (_ & n' & Hn' & Hch').
  exists n'. split; [done|congruence].
Qed.

Lemma preserves_run_call q c :
  callback_keeps q → ¬ finalizes q c → preserves q (run_call c).
Proof.
  intros Hk Hfin. destruct c; cbn [run_call finalizes] in *.
  - (* nativeOpenInputChannelPair *)
    apply preserves_bind; [|intros; apply preserves_ret].
    unfold android_view_InputChannel_nativeOpenInputChannelPair.
    apply preserves_bind; [apply preserves_deref_sp|]. intros name.
    destruct (InputChannel_openInputChannelPair name) as [[result server] client].
    case_bool_decide.
    { apply preserves_bind; [apply preserves_throw|intros; apply preserves_ret]. }
    apply preserves_bind.
    { intros ch s a s' Hq Hrun. unfold NewLongArray in Hrun.
      destruct (NewLongArray_ok s); by simplify_eq. }
    intros [|]; cbn [negb]; [|apply preserves_ret].
    apply preserves_bind; [apply preserves_new|]. intros out0.
    apply preserves_bind; [apply preserves_gets|].
    intros [|]; [apply preserves_ret|].
    apply preserves_bind; [apply preserves_new|]. intros out1.
    apply preserves_bind; [apply preserves_gets|].
    intros [|]; apply preserves_ret.
  - (* InputChannel_nativeDestroy *)
    unfold InputChannel_nativeDestroy.
    case_bool_decide; [|apply preserves_ret].
    unfold delete_NativeInputChannel.
    apply preserves_bind; [apply preserves_deref|]. intros _.
    intros ch s a s' (n & Hn & Hch) Hrun. unfold modify in Hrun. simplify_eq.
    exists n. split; [|done]. cbn. by rewrite lookup_delete_ne.
  - (* nativeDispose *)
    unfold android_view_InputChannel_nativeDispose.
    case_bool_decide; [by apply preserves_invokeAndRemove|apply preserves_ret].
  - (* nativeReadFromParcel *)
    apply preserves_bind; [|intros; apply preserves_ret].
    unfold android_view_InputChannel_nativeReadFromParcel.
    apply preserves_bind; [apply preserves_gets|].
    intros [parcel|]; [|apply preserves_ret].
    apply preserves_bind; [apply preserves_with_parcel|]. intros flag.
    case_bool_decide; [|apply preserves_ret].
    apply preserves_bind; [apply preserves_with_parcel|intros; apply preserves_new].
  - (* nativeWriteToParcel *)
    unfold android_view_InputChannel_nativeWriteToParcel.
    apply preserves_bind; [apply preserves_gets|].
    intros [parcel|]; [|by apply preserves_modify].
    case_bool_decide; [apply preserves_with_parcel|].
    apply preserves_bind; [apply preserves_with_parcel|]. intros _.
    apply preserves_bind; [apply preserves_getInputChannel|]. intros ic.
    apply preserves_bind; [apply preserves_deref_sp|].
    intros; apply preserves_with_parcel.
  - (* nativeGetName *)
    apply preserves_bind; [|intros; apply preserves_ret].
    unfold android_view_InputChannel_nativeGetName.
    case_bool_decide; [apply preserves_ret|].
    apply preserves_bind; [apply preserves_getInputChannel|]. intros ic.
    apply preserves_bind; [apply preserves_deref_sp|intros; apply preserves_ret].
  - (* nativeDup *)
    apply preserves_bind; [|intros; apply preserves_ret].
    unfold android_view_InputChannel_nativeDup.
    case_bool_decide.
    { apply preserves_bind; [apply preserves_throw|intros; apply preserves_ret]. }
    apply preserves_bind; [apply preserves_getInputChannel|].
    intros [c|].
    2:{ apply preserves_bind; [apply preserves_throw|intros; apply preserves_ret]. }
    apply preserves_bind; [|intros; apply preserves_new].
    destruct (InputChannel_dup c); [apply preserves_ret|apply preserves_throw].
  - (* nativeGetToken *)
    apply preserves_bind; [|intros; apply preserves_ret].
    unfold android_view_InputChannel_nativeGetToken.
    case_bool_decide; [|apply preserves_ret].
    apply preserves_bind; [apply preserves_getInputChannel|]. intros ic.
    apply preserves_bind; [apply preserves_deref_sp|intros; apply preserves_ret].
  - (* android_view_InputChannel_setDisposeCallback *)
    unfold android_view_InputChannel_setDisposeCallback.
    apply preserves_bind.
    { intros ch s a s' Hq Hrun.
      unfold android_view_InputChannel_getNativeInputChannel in Hrun.
      destruct (mPtrField s !! inputChannelObj); by simplify_eq. }
    intros p. case_bool_decide; [by apply preserves_modify|].
    apply preserves_write_slot.
  - (* android_view_InputChannel_getInputChannel *)
    apply preserves_bind; [|intros; apply preserves_ret].
    unfold android_view_InputChannel_getInputChannel.
    apply preserves_bind.
    { intros ch s a s' Hq Hrun.
      unfold android_view_InputChannel_getNativeInputChannel in Hrun.
      destruct (mPtrField s !! inputChannelObj); by simplify_eq. }
    intros p. case_bool_decide; [apply preserves_getInputChannel|apply preserves_ret].
Qed.

(** X8: from its creation until the finalizer runs on it, a handle stays
    allocated and keeps its channel. Whatever entry points are called, in
    whatever order and on whatever references and objects, as long as none
    of the calls is undefined and none is InputChannel_nativeDestroy on that
    handle, the handle is live at the end and holds the channel it held at
    the start. The callbacks are asked not to free or replace the handle. *)
Theorem channel_fixed_until_finalized (q : Z) (cs : list Call) (s s' : State)
    (ch : option InputChannel) :
  callback_keeps q →
  Forall (λ c, ¬ finalizes q c) cs →
  holds_channel q ch s →
  run_calls cs s = Some (tt, s') →
  holds_channel q ch s'.
Proof.
  intros Hk Hcs. revert s. induction Hcs as [|c cs Hc Hcs IH]; intros s Hq Hrun.
  - cbn [run_calls] in Hrun. unfold mret, M_ret in Hrun. by simplify_eq.
  - cbn [run_calls] in Hrun.
    apply bind_inv in Hrun as ([] & s1 & Hrun1 & Hrun2).
    apply (IH s1); [|exact Hrun2].
    by eapply (preserves_run_call q c Hk Hc).
Qed.

End MoreFacts.

(** ** The further properties on the reference platform *)


(** The duplicate of handle 1 of [s0], whose callback 5 is not copied. *)
Lemma nativeDup_success_witness :
  let P := refPlatform 0 true true in
  ∃ r s',
    @android_view_InputChannel_nativeDup P 1 s0 = Some (r, s')
    ∧ r ≠ 0 ∧ r ≠ 1
    ∧ heap s0 !! r = None
    ∧ heap s' !! r
      = Some (mkNativeInputChannel (Some (mkInputChannel "x" 110 (Some 7)))
                0 Indeterminate)
    ∧ heap s' !! 1 = Some (mkNativeInputChannel (Some chanX) 5 (Addr 1))
    ∧ pendingException s' = pendingException s0
    ∧ hookCalls s' = hookCalls s0
    ∧ @android_view_InputChannel_nativeDispose P 20 r s' = Some (tt, s')
    ∧ ∃ s'',
        InputChannel_nativeDestroy 1 s' = Some (tt, s'')
        ∧ android_view_InputChannel_nativeGetName r s'' = Some (Some "x", s'').
Proof.
  apply (@nativeDup_success (refPlatform 0 true true) 1 20 s0
           (mkNativeInputChannel (Some chanX) 5 (Addr 1)) chanX
           (mkInputChannel "x" 110 (Some 7))).
  - lia.
  - reflexivity.
  - reflexivity.
  - reflexivity.
Defined.

(** The single word 2 in Java Parcel 30: the flag counts as set, the decoder
    finds nothing and returns null, and a handle is made around it. *)
Lemma nativeReadFromParcel_nonzero_flag_witness :
  let P := refPlatform 0 true true in
  let s := set_parcels (insert 30 [2]) s0 in
  ∃ r s',
    @android_view_InputChannel_nativeReadFromParcel P 30 s = Some (r, s')
    ∧ r ≠ 0
    ∧ heap s !! r = None
    ∧ heap s' !! r = Some (mkNativeInputChannel None 0 Indeterminate)
    ∧ parcels s' !! 30 = Some []
    ∧ pendingException s' = pendingException s
    ∧ hookCalls s' = hookCalls s
    ∧ ∀ q, q ≠ r → heap s' !! q = heap s !! q.
Proof.
  apply (@nativeReadFromParcel_nonzero_flag (refPlatform 0 true true) 30 2 []
           (set_parcels (insert 30 [2]) s0)).
  - reflexivity.
  - lia.
Defined.


Lemma dispose_times_idempotent_witness :
  let P := refPlatform 0 true true in
  is_Some (@android_view_InputChannel_nativeDispose P 20 1 s0)
  ∧ @dispose_times P 5 20 1 s0 = @android_view_InputChannel_nativeDispose P 20 1 s0.
Proof.
  apply (@dispose_times_idempotent (refPlatform 0 true true) 1 20 4 s0
           (mkNativeInputChannel (Some chanX) 5 (Addr 1))).
  - lia.
  - reflexivity.
  - apply ref_callback_keeps.
Defined.


(** Handle 1 of [s0] through a registration, a duplication, a disposal, a
    write and a read of Java Parcel 30, the finalizer on the duplicate, and
    the accessors. *)
Lemma channel_fixed_until_finalized_witness :
  let P := refPlatform 0 true true in
  let cs := [CallSetDisposeCallback 20 8 (Addr 1); CallDup 1; CallDispose 20 1;
             CallWriteToParcel 30 1; CallReadFromParcel 30; CallDestroy 2;
             CallGetName 1; CallGetToken 1; CallGetInputChannel 20;
             CallOpenInputChannelPair (Some "y")] in
  ∃ s', @run_calls P cs s0 = Some (tt, s') ∧ holds_channel 1 (Some chanX) s'.
Proof.
  intros P cs.
  destruct (@run_calls P cs s0) as [[[] s']|] eqn:Hrun;
    [|vm_compute in Hrun; discriminate Hrun].
  exists s'. split; [reflexivity|].
  apply (@channel_fixed_until_finalized P 1 cs s0 s' (Some chanX)).
  - apply ref_callback_keeps.
  - repeat constructor; cbn; (lia || tauto).
  - eexists. split; reflexivity.
  - exact Hrun.
Defined.
